(** * lightpath: the simulated beamline devices and the beam path built on them

    The development embeds [lightpath/tests/conftest.py]: the pseudo-enum
    [Status], the simulated device classes [Valve], [IPIMB], [Stopper] and
    [Crystal], and the simulated protection device [MPS].  Python objects
    live in a store indexed by object identity, so that the back reference
    [MPS.device] and the field [Valve.mps] alias the way they do in Python.
    Floating point positions and transmissions are read as exact rationals. *)

From Stdlib Require Import ZArith QArith Qcanon.
From stdpp Require Import base option list strings numbers gmap.

Close Scope Q_scope.
Close Scope Qc_scope.

(** ** Python values shared by all classes *)

(** [class Status]: three integer constants, compared with [==]. *)
Module Status.
Definition inserted : Z := 0.
Definition removed : Z := 1.
Definition unknown : Z := 2.
End Status.

(** The concrete classes of the simulated devices; every one derives from
    [Valve]. *)
Inductive DeviceClass : Set :=
  | ClsValve
  | ClsIPIMB
  | ClsStopper
  | ClsCrystal.

Global Instance DeviceClass_eq_dec : EqDecision DeviceClass.
Proof. solve_decision. Defined.

(** Class attribute [_transmission], resolved along the inheritance chain:
    [Valve] sets 0.0, [IPIMB] overrides it with 0.6. *)
Definition _transmission (c : DeviceClass) : Qc :=
  match c with
  | ClsIPIMB => Q2Qc (Qmake 6 10)
  | ClsValve | ClsStopper | ClsCrystal => Q2Qc 0
  end.

(** Class attribute [_veto]: [False] on [Valve], [True] on [Stopper]. *)
Definition _veto (c : DeviceClass) : bool :=
  match c with
  | ClsStopper => true
  | ClsValve | ClsIPIMB | ClsCrystal => false
  end.

Definition SUB_DEV_CH : string := "device_state_changed".
Definition SUB_MPS_CH : string := "mps_state_changed".

(** ** The object store *)

(** Object identity. *)
Definition loc : Set := positive.

(** A subscribed callable, known only by its identity: the simulated
    classes never look inside one. *)
Definition callback : Set := nat.

(** Instance attributes of a [Valve] (or subclass) object.  [mps = None] is
    Python's [None]; [branches = None] means the attribute does not exist
    (only [Crystal.__init__] creates it).  [subs] is the framework's table
    of callbacks per subscription type. *)
Record ValveObj : Type := mkValve {
  cls : DeviceClass;
  prefix : string;
  z : Qc;
  beamline : string;
  status : Z;
  mps : option loc;
  branches : option (list string);
  subs : gmap string (list callback)
}.

(** Instance attributes of an [MPS] object. *)
Record MPSObj : Type := mkMPS {
  mps_prefix : string;
  device : loc;
  bypassed : bool;
  mps_subs : gmap string (list callback)
}.

Inductive Obj : Type :=
  | ValveO (v : ValveObj)
  | MPSO (m : MPSObj).

(** One callback invocation made by [_run_subs]: which callable ran, on
    behalf of which publisher and channel, with which [obj] keyword, and the
    store it could observe at that moment. *)
Record Event : Type := mkEvent {
  ev_cb : callback;
  ev_source : loc;
  ev_sub_type : string;
  ev_obj : loc;
  ev_seen : gmap loc Obj
}.

Record World : Type := mkWorld {
  heap : gmap loc Obj;
  log : list Event
}.

Definition empty_world : World := mkWorld ∅ [].

(** ** Exceptions and the monad of Python computations *)

Inductive Exn : Set :=
  | AttributeError
  | IndexError
  | TopologyError
  | DuplicatePositionError.

Inductive Result (A : Type) : Type :=
  | Ok (a : A)
  | Raise (e : Exn).
Arguments Ok {A} a.
Arguments Raise {A} e.

Definition Py (A : Type) : Type := World → Result (A * World).

Global Instance Py_ret : MRet Py := λ A a w, Ok (a, w).

Global Instance Py_bind : MBind Py := λ A B k m w,
  match m w with
  | Ok (a, w') => k a w'
  | Raise e => Raise e
  end.

Definition raise {A} (e : Exn) : Py A := λ _, Raise e.

(** Attribute access on an object that must be a device. *)
Definition get_valve (l : loc) : Py ValveObj :=
  λ w, match heap w !! l with
       | Some (ValveO v) => Ok (v, w)
       | _ => Raise AttributeError
       end.

Definition get_mps (l : loc) : Py MPSObj :=
  λ w, match heap w !! l with
       | Some (MPSO m) => Ok (m, w)
       | _ => Raise AttributeError
       end.

Definition put_obj (l : loc) (o : Obj) : Py unit :=
  λ w, Ok (tt, mkWorld (<[l := o]> (heap w)) (log w)).

(** A new object gets an identity no live object has. *)
Definition alloc (o : Obj) : Py loc :=
  λ w, let l := fresh (dom (heap w)) in
       Ok (l, mkWorld (<[l := o]> (heap w)) (log w)).

Definition set_status (s : Z) (v : ValveObj) : ValveObj :=
  mkValve (cls v) (prefix v) (z v) (beamline v) s (mps v) (branches v) (subs v).

Definition set_mps (m : option loc) (v : ValveObj) : ValveObj :=
  mkValve (cls v) (prefix v) (z v) (beamline v) (status v) m (branches v) (subs v).

Definition set_branches (b : option (list string)) (v : ValveObj) : ValveObj :=
  mkValve (cls v) (prefix v) (z v) (beamline v) (status v) (mps v) b (subs v).

Definition set_subs (s : gmap string (list callback)) (v : ValveObj) : ValveObj :=
  mkValve (cls v) (prefix v) (z v) (beamline v) (status v) (mps v) (branches v) s.

(** [self.attr = value] on a device. *)
Definition update_valve (l : loc) (f : ValveObj → ValveObj) : Py unit :=
  v ← get_valve l; put_obj l (ValveO (f v)).

(** ** The framework's subscription machinery

    [_run_subs] belongs to the device framework the classes derive from,
    which also keeps, per object, the table of callables registered on each
    channel.  [_run_subs] calls, in registration order, every callable
    registered on the publisher for the channel; a call is recorded in the
    log together with the store the callable can read.  Callables are
    observers: they do not write the store and do not raise.  How a
    callable gets registered is the framework's business and is not
    modelled: the properties below hold for every table. *)

Definition subs_of (o : Obj) : gmap string (list callback) :=
  match o with
  | ValveO v => subs v
  | MPSO m => mps_subs m
  end.

Definition callbacks (s : gmap string (list callback)) (sub_type : string)
  : list callback :=
  default [] (s !! sub_type).

Definition _run_subs (src : loc) (obj : loc) (sub_type : string) : Py unit :=
  λ w, match heap w !! src with
       | Some o =>
           Ok (tt, mkWorld (heap w)
                     (log w ++
                      map (λ cb, mkEvent cb src sub_type obj (heap w))
                          (callbacks (subs_of o) sub_type)))
       | None => Raise AttributeError
       end.

(** ** The simulated classes *)

(** The framework's status object, as [insert] and [remove] build it. *)
Record DeviceStatus : Type := mkDeviceStatus {
  ds_device : loc;
  done : bool;
  success : bool
}.

(** *** [class Valve]: properties *)

(** property [Valve.transmission] *)
Definition Valve_transmission (self : loc) : Py Qc :=
  v ← get_valve self; mret (_transmission (cls v)).

(** property [Valve.inserted]: [self.status == Status.inserted] *)
Definition Valve_inserted (self : loc) : Py bool :=
  v ← get_valve self; mret (Z.eqb (status v) Status.inserted).

(** property [Valve.removed]: [self.status == Status.removed] *)
Definition Valve_removed (self : loc) : Py bool :=
  v ← get_valve self; mret (Z.eqb (status v) Status.removed).

(** *** [class MPS]: the simulated protection device

    It keeps a reference to the device it watches and reads that device's
    attributes each time it is asked. *)

(** [MPS.__init__(self, device)] *)
Definition MPS_init (dev : loc) : Py loc :=
  alloc (MPSO (mkMPS "MPS" dev false ∅)).

(** property [MPS.veto_capable]: [self.device._veto] *)
Definition MPS_veto_capable (self : loc) : Py bool :=
  m ← get_mps self;
  v ← get_valve (device m);
  mret (_veto (cls v)).

(** property [MPS.faulted]:
    [self.device.inserted and not self.veto_capable]; the right operand
    is evaluated only when the left one is true. *)
Definition MPS_faulted (self : loc) : Py bool :=
  m ← get_mps self;
  Valve_inserted (device m) ≫= λ i : bool,
  if i return Py bool
  then c ← MPS_veto_capable self; mret (negb c)
  else mret false.

(** *** [class Valve]: construction and actuation *)

(** [Valve.__init__(self, name, z, beamline)]; [c] is the class being
    instantiated ([Valve], [IPIMB] and [Stopper] all construct through this
    initialiser). *)
Definition Valve_init (c : DeviceClass) (name : string) (pos : Qc)
    (bl : string) : Py loc :=
  self ← alloc (ValveO (mkValve c name pos bl Status.removed None None ∅));
  m ← MPS_init self;
  update_valve self (set_mps (Some m));;
  mret self.

(** The statements [insert] and [remove] share after the assignment to
    [self.status]: run the device subscriptions with [obj=self], then, under
    [if self.mps:] (an object is truthy, [None] is not), the protection
    subscriptions, and return [DeviceStatus(self, done=True, success=True)]. *)
Definition announce (self : loc) : Py DeviceStatus :=
  _run_subs self self SUB_DEV_CH;;
  v ← get_valve self;
  match mps v return Py unit with
  | Some m => _run_subs m self SUB_MPS_CH
  | None => mret tt
  end;;
  mret (mkDeviceStatus self true true).

(** [Valve.insert(self)] *)
Definition Valve_insert (self : loc) : Py DeviceStatus :=
  update_valve self (set_status Status.inserted);;
  announce self.

(** [Valve.remove(self)] *)
Definition Valve_remove (self : loc) : Py DeviceStatus :=
  update_valve self (set_status Status.removed);;
  announce self.

(** *** [class Crystal]: the branching device *)

(** [Crystal.__init__(self, name, z, beamline, branch)] *)
Definition Crystal_init (name : string) (pos : Qc) (bl branch : string)
    : Py loc :=
  self ← Valve_init ClsCrystal name pos bl;
  v ← get_valve self;
  update_valve self (set_branches (Some [beamline v; branch]));;
  update_valve self (set_mps None);;
  mret self.

(** [self.branches]: fails when the attribute was never set. *)
Definition get_branches (self : loc) : Py (list string) :=
  v ← get_valve self;
  match branches v with
  | Some bs => mret bs
  | None => raise AttributeError
  end.

(** List subscript [l[i]] with a non-negative index. *)
Definition subscript {A} (l : list A) (i : nat) : Py A :=
  match l !! i with
  | Some a => mret a
  | None => raise IndexError
  end.

(** property [Crystal.destination] *)
Definition Crystal_destination (self : loc) : Py (list string) :=
  Valve_inserted self ≫= λ i : bool,
  if i return Py (list string) then
    bs ← get_branches self;
    b ← subscript bs 1;
    mret [b]
  else
    Valve_removed self ≫= λ r : bool,
    if r return Py (list string) then
      v ← get_valve self;
      mret [beamline v]
    else
      get_branches self.

(** [d.mps.faulted], the way a client reads a device's protection state. *)
Definition mps_faulted (d : loc) : Py bool :=
  v ← get_valve d;
  match mps v return Py bool with
  | Some m => MPS_faulted m
  | None => raise AttributeError
  end.

(** ** Clients of a device *)

(** What Python guarantees whenever a method runs on a device: [self] is a
    live device object and its [mps] attribute is [None] or a live object. *)
Definition is_device (w : World) (l : loc) : bool :=
  match heap w !! l with
  | Some (ValveO v) =>
      match mps v with
      | Some m => bool_decide (is_Some (heap w !! m))
      | None => true
      end
  | _ => false
  end.

(** The calls that move a device, as a client makes them one after
    another, dropping the status object each returns. *)
Inductive Call : Type :=
  | CInsert
  | CRemove.

Definition run_call (l : loc) (c : Call) : Py unit :=
  match c with
  | CInsert => Valve_insert l;; mret tt
  | CRemove => Valve_remove l;; mret tt
  end.

Fixpoint run_calls (l : loc) (cs : list Call) : Py unit :=
  match cs with
  | [] => mret tt
  | c :: cs => run_call l c;; run_calls l cs
  end.

(** ** The beam path *)

(** A path keeps references to its devices, not copies of them. *)
Record BeamPath : Type := mkBeamPath {
  path_name : string;
  devices : list loc
}.

(** Read the current attributes of a list of devices. *)
Fixpoint read_devices (ls : list loc) : Py (list ValveObj) :=
  match ls with
  | [] => mret []
  | l :: ls => v ← get_valve l; vs ← read_devices ls; mret (v :: vs)
  end.











(** Modelled from the spec: the query [BeamPath.transmission_at(position)],
    whose code is not in the sources.  It is the product of
    [device.transmission] over the devices strictly upstream of the
    position that are not removed, a device in an unknown state
    contributing 0. *)
Definition transmission_at (p : BeamPath) (q : Qc) : Py Qc :=
  ds ← read_devices (devices p);
  mret (foldr Qcmult (Q2Qc 1)
          ((λ d, if Z.eqb (status d) Status.inserted
                 then _transmission (cls d) else Q2Qc 0)
           <$> filter (λ d, (z d < q)%Qc ∧ status d ≠ Status.removed) ds)).

(** The factor one device contributes to the beam reaching a point
    downstream of it. *)
Definition factor (d : ValveObj) : Qc :=
  if Z.eqb (status d) Status.removed then Q2Qc 1
  else if Z.eqb (status d) Status.inserted then _transmission (cls d)
  else Q2Qc 0.

(** The callback invocations one [_run_subs] call makes in store [h]. *)
Definition notices (h : gmap loc Obj) (src obj : loc) (sub_type : string)
    : list Event :=
  match h !! src with
  | Some o => map (λ cb, mkEvent cb src sub_type obj h)
                  (callbacks (subs_of o) sub_type)
  | None => []
  end.

(** The store after [self.status = s] on the device [v] at [l]. *)
Definition moved (s : Z) (l : loc) (v : ValveObj) (h : gmap loc Obj)
    : gmap loc Obj :=
  <[l := ValveO (set_status s v)]> h.

(** The status object [insert] and [remove] hand back. *)
Definition finished (l : loc) : DeviceStatus := mkDeviceStatus l true true.

(** The two actuation requests, the status each one aims at and the method
    that serves it. *)
Inductive Actuation : Set :=
  | Insert
  | Remove.

Global Instance Actuation_eq_dec : EqDecision Actuation.
Proof. solve_decision. Defined.

Definition target (a : Actuation) : Z :=
  match a with
  | Insert => Status.inserted
  | Remove => Status.removed
  end.

Definition actuate (a : Actuation) : loc → Py DeviceStatus :=
  match a with
  | Insert => Valve_insert
  | Remove => Valve_remove
  end.

(** Everything a device is given at construction. *)
Definition same_static (v v' : ValveObj) : Prop :=
  cls v' = cls v ∧ prefix v' = prefix v ∧ z v' = z v
  ∧ beamline v' = beamline v ∧ mps v' = mps v ∧ branches v' = branches v.

(** The store a computation leaves behind. *)
Definition exec {A} (m : Py A) (w : World) : World :=
  match m w with
  | Ok (_, w') => w'
  | Raise _ => w
  end.

(** ** Fixtures of the test-suite *)

Definition qz (n : Z) : Qc := Q2Qc (inject_Z n).

(** fixture [device]: [Valve('valve', z=40.0, beamline='TST')] *)
Definition device_fixture : Py loc := Valve_init ClsValve "valve" (qz 40) "TST".

(** The store holding just that device, and the device's attributes. *)
Definition device_world : World := exec device_fixture empty_world.

Definition device_valve : ValveObj :=
  mkValve ClsValve "valve" (qz 40) "TST" Status.removed (Some 2%positive)
    None ∅.

(** The same device once inserted. *)
Definition inserted_world : World := exec (Valve_insert 1%positive) device_world.

(** The same device with callable 7 registered on its own channel and
    callable 8 on the channel of its protection device. *)
Definition watched_valve : ValveObj :=
  set_subs {[SUB_DEV_CH := [7]]} device_valve.

Definition watched_world : World :=
  mkWorld
    (<[1%positive := ValveO watched_valve]>
       (<[2%positive :=
            MPSO (mkMPS "MPS" 1%positive false {[SUB_MPS_CH := [8]]})]>
          (heap device_world)))
    [].

(** [Crystal('four', z=16., beamline='TST', branch='SIM')] on its own. *)
Definition crystal_world : World :=
  exec (Crystal_init "four" (qz 16) "TST" "SIM") empty_world.

Definition crystal_valve : ValveObj :=
  mkValve ClsCrystal "four" (qz 16) "TST" Status.removed None
    (Some ["TST"; "SIM"]) ∅.

(** The devices of fixture [path], in the order they are written. *)
Definition path_fixture : Py (list loc) :=
  d0 ← Valve_init ClsValve "zero" (qz 0) "TST";
  d1 ← Valve_init ClsValve "one" (qz 2) "TST";
  d2 ← Valve_init ClsStopper "two" (qz 9) "TST";
  d3 ← Valve_init ClsValve "three" (qz 15) "TST";
  d4 ← Crystal_init "four" (qz 16) "TST" "SIM";
  d5 ← Valve_init ClsIPIMB "five" (qz 24) "TST";
  d6 ← Valve_init ClsValve "six" (qz 30) "TST";
  mret [d0; d1; d2; d3; d4; d5; d6].

Definition path_world : World := exec path_fixture empty_world.

(** The identities [path_fixture] hands out, device by device. *)
Definition path_locs : list loc :=
  [1; 3; 5; 7; 9; 11; 13]%positive.









(** Where the events of a call on device [v] at [l] come from: the device
    itself on the device channel, or its protection device on the
    protection channel. *)
Definition from_device (l : loc) (v : ValveObj) (e : Event) : Prop :=
  (ev_source e = l ∧ ev_sub_type e = SUB_DEV_CH)
  ∨ (mps v = Some (ev_source e) ∧ ev_sub_type e = SUB_MPS_CH).

(** ** Bookkeeping for sequences of calls *)

(** What one call writes into the attributes of the device it is made on:
    [insert] and [remove] assign [status]. *)
Definition call_effect (v : ValveObj) (c : Call) : ValveObj :=
  match c with
  | CInsert => set_status Status.inserted v
  | CRemove => set_status Status.removed v
  end.

Definition calls_effect (v : ValveObj) (cs : list Call) : ValveObj :=
  foldl call_effect v cs.

(** The actuation a call requests. *)
Definition actuation_of (c : Call) : Actuation :=
  match c with
  | CInsert => Insert
  | CRemove => Remove
  end.

(** The last actuation requested by a sequence of calls, if there is
    one. *)
Definition last_actuation (cs : list Call) : option Actuation :=
  last (actuation_of <$> cs).

(** How many callables one actuation of the device at [l] calls in store
    [w]: the subscribers of its device channel and, when it has a
    protection device, the subscribers of that device's channel. *)
Definition audience (w : World) (l : loc) : nat :=
  match heap w !! l with
  | Some (ValveO v) =>
      length (callbacks (subs v) SUB_DEV_CH)
      + match mps v with
        | Some m =>
            from_option (λ o, length (callbacks (subs_of o) SUB_MPS_CH)) 0
              (heap w !! m)
        | None => 0
        end
  | _ => 0
  end.

(** [mps.bypassed = b], an assignment to the attribute [MPS.__init__]
    creates. *)
Definition set_bypassed (b : bool) (lm : loc) : Py unit :=
  m ← get_mps lm;
  put_obj lm (MPSO (mkMPS (mps_prefix m) (device m) b (mps_subs m))).

(** [crystal.branches = bs], an assignment to the attribute
    [Crystal.__init__] creates. *)
Definition assign_branches (bs : list string) (l : loc) : Py unit :=
  update_valve l (set_branches (Some bs)).

(** The call that serves an actuation request. *)
Definition request (a : Actuation) : Call :=
  match a with
  | Insert => CInsert
  | Remove => CRemove
  end.

(** * Properties *)

(** ** Running computations *)

Lemma bind_ok {A B} (m : Py A) (k : A → Py B) w a w' :
  m w = Ok (a, w') → (m ≫= k) w = k a w'.
Proof. intros H. unfold mbind, Py_bind. by rewrite H. Qed.

Lemma get_valve_at w l v :
  heap w !! l = Some (ValveO v) → get_valve l w = Ok (v, w).
Proof. intros H. unfold get_valve. by rewrite H. Qed.

Lemma get_mps_at w l m :
  heap w !! l = Some (MPSO m) → get_mps l w = Ok (m, w).
Proof. intros H. unfold get_mps. by rewrite H. Qed.

Lemma update_valve_at w l v f :
  heap w !! l = Some (ValveO v) →
  update_valve l f w = Ok (tt, mkWorld (<[l := ValveO (f v)]> (heap w)) (log w)).
Proof.
  intros H. unfold update_valve.
  by rewrite (bind_ok _ _ _ _ _ (get_valve_at _ _ _ H)).
Qed.

Lemma run_subs_at w src obj sub_type :
  is_Some (heap w !! src) →
  _run_subs src obj sub_type w
  = Ok (tt, mkWorld (heap w) (log w ++ notices (heap w) src obj sub_type)).
Proof. intros [o H]. unfold _run_subs, notices. by rewrite H. Qed.

Lemma is_device_mps w l v m :
  is_device w l = true → heap w !! l = Some (ValveO v) → mps v = Some m →
  is_Some (heap w !! m).
Proof.
  unfold is_device. intros H Hl Hm. rewrite Hl, Hm in H.
  by apply bool_decide_eq_true_1 in H.
Qed.

(** ** Actuation *)

(** What [self.status = s] followed by the shared tail of [insert] and
    [remove] does to a device. *)
Lemma actuate_spec s w l v :
  heap w !! l = Some (ValveO v) → is_device w l = true →
  (update_valve l (set_status s);; announce l) w
  = Ok (finished l,
        mkWorld (moved s l v (heap w))
          (log w
           ++ notices (moved s l v (heap w)) l l SUB_DEV_CH
           ++ match mps v with
              | Some m => notices (moved s l v (heap w)) m l SUB_MPS_CH
              | None => []
              end)).
Proof.
  intros Hl Hdev.
  rewrite (bind_ok _ _ _ _ _ (update_valve_at _ _ _ _ Hl)).
  unfold announce, moved.
  set (h' := <[l:=ValveO (set_status s v)]> (heap w)).
  assert (Hl' : h' !! l = Some (ValveO (set_status s v)))
    by apply lookup_insert_eq.
  rewrite (bind_ok _ _ (mkWorld h' (log w)) tt
             (mkWorld h' (log w ++ notices h' l l SUB_DEV_CH))).
  2:{ rewrite run_subs_at; [done | simpl; eauto]. }
  rewrite (bind_ok _ _ _ _ _
             (get_valve_at (mkWorld h' _) _ _ Hl')). simpl.
  destruct (mps v) as [m|] eqn:Hm.
  - assert (Hm' : is_Some (h' !! m)).
    { destruct (decide (l = m)) as [->|Hne]; [eauto |].
      unfold h'. rewrite lookup_insert_ne by done.
      eapply is_device_mps; eauto. }
    erewrite bind_ok; [| rewrite run_subs_at; [done | done]].
    simpl. unfold mret, Py_ret, finished. by rewrite <- app_assoc.
  - unfold mbind, Py_bind, mret, Py_ret, finished. simpl.
    by rewrite app_nil_r.
Qed.

Lemma set_status_same v : set_status (status v) v = v.
Proof. by destruct v. Qed.

Lemma same_static_refl v : same_static v v.
Proof. by repeat split. Qed.

Lemma same_static_trans v1 v2 v3 :
  same_static v1 v2 → same_static v2 v3 → same_static v1 v3.
Proof.
  unfold same_static. intros (?&?&?&?&?&?) (?&?&?&?&?&?).
  repeat split; congruence.
Qed.

(** Changing the status of the device at [l] leaves every object's
    subscription table as it was. *)
Lemma moved_subs s l v h m :
  h !! l = Some (ValveO v) →
  subs_of <$> (moved s l v h !! m) = subs_of <$> (h !! m).
Proof.
  intros Hl. unfold moved. destruct (decide (l = m)) as [<-|Hne].
  - by rewrite lookup_insert_eq, Hl.
  - by rewrite lookup_insert_ne.
Qed.

Lemma notices_cbs h src obj sub_type :
  ev_cb <$> notices h src obj sub_type
  = from_option (λ o, callbacks (subs_of o) sub_type) [] (h !! src).
Proof.
  unfold notices. destruct (h !! src) as [o|]; [|done]. simpl.
  rewrite <- list_fmap_compose. apply list_fmap_id.
Qed.

Lemma notices_Forall h src obj sub_type :
  Forall (λ e, ev_source e = src ∧ ev_sub_type e = sub_type
               ∧ ev_obj e = obj ∧ ev_seen e = h)
         (notices h src obj sub_type).
Proof.
  unfold notices. destruct (h !! src) as [o|]; [|constructor].
  apply Forall_forall. intros e [cb [-> _]]%list_elem_of_fmap. done.
Qed.

Lemma actuate_unfold a l :
  actuate a l = (update_valve l (set_status (target a));; announce l).
Proof. by destruct a. Qed.

(** C6: for every device and every initial state, [insert] (respectively
    [remove]) first sets the status to Inserted (respectively Removed) and
    then calls every subscriber: the device-level subscribers in
    registration order, then the subscribers of the protection device, each
    of them observing the store in which the status is already changed.
    Nothing but the status of the device is written. *)
Theorem actuation_mutates_then_notifies (a : Actuation) w l v :
  heap w !! l = Some (ValveO v) → is_device w l = true →
  ∃ w' v' dev_ev mps_ev,
    actuate a l w = Ok (finished l, w')
    ∧ heap w' !! l = Some (ValveO v')
    ∧ status v' = target a
    ∧ same_static v v' ∧ subs v' = subs v
    ∧ Valve_inserted l w' = Ok (bool_decide (a = Insert), w')
    ∧ Valve_removed l w' = Ok (bool_decide (a = Remove), w')
    ∧ log w' = log w ++ dev_ev ++ mps_ev
    ∧ ev_cb <$> dev_ev = callbacks (subs v) SUB_DEV_CH
    ∧ ev_cb <$> mps_ev
      = from_option
          (λ m, from_option (λ o, callbacks (subs_of o) SUB_MPS_CH) []
                  (heap w !! m))
          [] (mps v)
    ∧ Forall (λ e, ev_source e = l ∧ ev_sub_type e = SUB_DEV_CH
                   ∧ ev_obj e = l ∧ ev_seen e = heap w') dev_ev
    ∧ Forall (λ e, mps v = Some (ev_source e) ∧ ev_sub_type e = SUB_MPS_CH
                   ∧ ev_obj e = l ∧ ev_seen e = heap w') mps_ev
    ∧ Forall (λ e, ∃ seen, ev_seen e !! l = Some (ValveO seen)
                           ∧ status seen = target a) (dev_ev ++ mps_ev).
Proof.
  intros Hl Hdev. rewrite actuate_unfold.
  rewrite (actuate_spec _ _ _ _ Hl Hdev).
  set (h' := moved (target a) l v (heap w)).
  assert (Hl' : h' !! l = Some (ValveO (set_status (target a) v)))
    by apply lookup_insert_eq.
  assert (Hde : Forall (λ e, ev_source e = l ∧ ev_sub_type e = SUB_DEV_CH
                             ∧ ev_obj e = l ∧ ev_seen e = h')
                  (notices h' l l SUB_DEV_CH)) by apply notices_Forall.
  assert (Hme : Forall (λ e, mps v = Some (ev_source e)
                             ∧ ev_sub_type e = SUB_MPS_CH
                             ∧ ev_obj e = l ∧ ev_seen e = h')
                  match mps v with
                  | Some m => notices h' m l SUB_MPS_CH
                  | None => []
                  end).
  { destruct (mps v) as [m|]; [| constructor].
    eapply Forall_impl; [apply notices_Forall |].
    simpl. intros e (-> & ? & ? & ?). done. }
  eexists _, (set_status (target a) v), (notices h' l l SUB_DEV_CH), _.
  split; [reflexivity |]. simpl.
  split; [exact Hl' |].
  split; [done |].
  split; [by repeat split |].
  split; [done |].
  split.
  { unfold Valve_inserted.
    erewrite bind_ok by (by apply (get_valve_at (mkWorld h' _))).
    by destruct a. }
  split.
  { unfold Valve_removed.
    erewrite bind_ok by (by apply (get_valve_at (mkWorld h' _))).
    by destruct a. }
  split; [reflexivity |].
  split.
  { rewrite notices_cbs, Hl'. done. }
  split.
  { destruct (mps v) as [m|]; [|done]. simpl. rewrite notices_cbs.
    pose proof (moved_subs (target a) l v (heap w) m Hl) as Hs.
    fold h' in Hs.
    destruct (h' !! m), (heap w !! m); simpl in *; congruence. }
  split; [exact Hde |].
  split; [exact Hme |].
  apply Forall_app. split.
  - eapply Forall_impl; [exact Hde |].
    intros e (_ & _ & _ & ->). by exists (set_status (target a) v).
  - eapply Forall_impl; [exact Hme |].
    intros e (_ & _ & _ & ->). by exists (set_status (target a) v).
Qed.

(** C5: [insert] on a device that is already Inserted, and [remove] on one
    that is already Removed, leave the store (so the status) as it was and
    still return a finished, successful status object. *)
Theorem actuation_idempotent (a : Actuation) w l v :
  heap w !! l = Some (ValveO v) → is_device w l = true →
  status v = target a →
  ∃ ack w',
    actuate a l w = Ok (ack, w')
    ∧ done ack = true ∧ success ack = true
    ∧ heap w' = heap w
    ∧ heap w' !! l = Some (ValveO v).
Proof.
  intros Hl Hdev Hs. rewrite actuate_unfold.
  rewrite (actuate_spec _ _ _ _ Hl Hdev).
  eexists _, _. split; [reflexivity |]. simpl.
  assert (Hh : moved (target a) l v (heap w) = heap w).
  { unfold moved. rewrite <- Hs, set_status_same. by apply insert_id. }
  rewrite Hh. done.
Qed.

(** C10: [insert] and [remove] never fail and complete synchronously: from
    every initial state the call returns a status object with [done] and
    [success] both true, and the new status is what the device's
    [inserted] and [removed] properties report in the store the call
    returns. *)
Theorem actuation_completes (a : Actuation) w l v :
  heap w !! l = Some (ValveO v) → is_device w l = true →
  ∃ ack w',
    actuate a l w = Ok (ack, w')
    ∧ ds_device ack = l ∧ done ack = true ∧ success ack = true
    ∧ heap w' !! l = Some (ValveO (set_status (target a) v))
    ∧ Valve_inserted l w' = Ok (bool_decide (a = Insert), w')
    ∧ Valve_removed l w' = Ok (bool_decide (a = Remove), w').
Proof.
  intros Hl Hdev. rewrite actuate_unfold.
  rewrite (actuate_spec _ _ _ _ Hl Hdev).
  eexists _, _. split; [reflexivity |]. simpl.
  repeat (split; [done |]).
  assert (Hl' : moved (target a) l v (heap w) !! l
                = Some (ValveO (set_status (target a) v)))
    by apply lookup_insert_eq.
  split; [done |].
  unfold Valve_inserted, Valve_removed.
  split.
  - erewrite bind_ok; [| by apply get_valve_at]. by destruct a.
  - erewrite bind_ok; [| by apply get_valve_at]. by destruct a.
Qed.

(** ** Construction *)

Lemma fresh_lookup (h : gmap loc Obj) : h !! fresh (dom h) = None.
Proof. apply not_elem_of_dom, is_fresh. Qed.

(** [Valve.__init__] always succeeds; it adds the device and its protection
    device, which point at each other, and touches nothing else. *)
Lemma Valve_init_spec c name pos bl w :
  ∃ l m w',
    Valve_init c name pos bl w = Ok (l, w')
    ∧ heap w !! l = None ∧ heap w !! m = None ∧ l ≠ m
    ∧ heap w'
      = <[l := ValveO (mkValve c name pos bl Status.removed (Some m) None ∅)]>
          (<[m := MPSO (mkMPS "MPS" l false ∅)]> (heap w))
    ∧ log w' = log w.
Proof.
  set (v0 := mkValve c name pos bl Status.removed None None ∅).
  set (l := fresh (dom (heap w))).
  set (h1 := <[l := ValveO v0]> (heap w)).
  set (m := fresh (dom h1)).
  assert (Hl : heap w !! l = None) by apply fresh_lookup.
  assert (Hm1 : h1 !! m = None) by apply fresh_lookup.
  assert (Hne : l ≠ m).
  { intros <-. unfold h1 in Hm1. by rewrite lookup_insert_eq in Hm1. }
  assert (Hm : heap w !! m = None).
  { unfold h1 in Hm1. by rewrite lookup_insert_ne in Hm1. }
  exists l, m. eexists. split; [| repeat (split; [done |])].
  - unfold Valve_init.
    erewrite bind_ok; [| reflexivity]. fold l v0 h1.
    erewrite bind_ok; [| reflexivity]. simpl. fold m.
    erewrite bind_ok.
    2:{ apply update_valve_at. simpl.
        rewrite lookup_insert_ne by done. apply lookup_insert_eq. }
    reflexivity.
  - simpl. split; [| done]. fold l v0 h1. unfold h1.
    rewrite (insert_insert_ne _ m l) by done.
    by rewrite insert_insert_eq.
Qed.

(** [Crystal.__init__] always succeeds; the device it builds has its two
    branches and no protection device. *)
Lemma Crystal_init_spec name pos bl branch w :
  ∃ l m w',
    Crystal_init name pos bl branch w = Ok (l, w')
    ∧ heap w !! l = None ∧ heap w !! m = None ∧ l ≠ m
    ∧ heap w'
      = <[l := ValveO (mkValve ClsCrystal name pos bl Status.removed None
                         (Some [bl; branch]) ∅)]>
          (<[m := MPSO (mkMPS "MPS" l false ∅)]> (heap w))
    ∧ log w' = log w.
Proof.
  destruct (Valve_init_spec ClsCrystal name pos bl w)
    as (l & m & w1 & Hinit & Hl & Hm & Hne & Hh & Hlog).
  exists l, m. eexists. split; [| repeat (split; [done |])].
  - unfold Crystal_init. erewrite bind_ok; [| exact Hinit].
    erewrite bind_ok.
    2:{ apply get_valve_at. rewrite Hh. apply lookup_insert_eq. }
    erewrite bind_ok.
    2:{ apply update_valve_at. rewrite Hh. apply lookup_insert_eq. }
    erewrite bind_ok.
    2:{ apply update_valve_at. simpl. apply lookup_insert_eq. }
    reflexivity.
  - simpl. split; [| done]. rewrite Hh.
    by rewrite !insert_insert_eq.
Qed.

(** A device fresh from [Valve.__init__] satisfies what methods rely on. *)
Lemma Valve_init_is_device c name pos bl w l w' :
  Valve_init c name pos bl w = Ok (l, w') → is_device w' l = true.
Proof.
  destruct (Valve_init_spec c name pos bl w)
    as (l0 & m & w1 & Hinit & _ & _ & Hne & Hh & _).
  rewrite Hinit. intros [= <- <-]. unfold is_device.
  rewrite Hh, lookup_insert_eq. simpl.
  apply bool_decide_eq_true_2.
  rewrite lookup_insert_ne by done. rewrite lookup_insert_eq. eauto.
Qed.

(** ** Sequences of calls on one device *)

Lemma is_device_update w w' l v v' :
  heap w !! l = Some (ValveO v) → is_device w l = true →
  heap w' = <[l := ValveO v']> (heap w) → mps v' = mps v →
  is_device w' l = true.
Proof.
  intros Hl Hdev Hh Hm. unfold is_device.
  rewrite Hh, lookup_insert_eq, Hm.
  destruct (mps v) as [m|] eqn:Hmv; [| done].
  apply bool_decide_eq_true_2.
  destruct (decide (l = m)) as [<-|Hne].
  - rewrite lookup_insert_eq. eauto.
  - rewrite lookup_insert_ne by done. eapply is_device_mps; eauto.
Qed.

Lemma run_call_spec c w l v :
  heap w !! l = Some (ValveO v) → is_device w l = true →
  ∃ w' v' new,
    run_call l c w = Ok (tt, w')
    ∧ heap w' = <[l := ValveO v']> (heap w)
    ∧ same_static v v'
    ∧ log w' = log w ++ new
    ∧ Forall (from_device l v) new.
Proof.
  intros Hl Hdev.
  assert (Hact : ∀ a, ∃ w' v' new,
            (actuate a l;; mret tt) w = Ok (tt, w')
            ∧ heap w' = <[l := ValveO v']> (heap w)
            ∧ same_static v v'
            ∧ log w' = log w ++ new
            ∧ Forall (from_device l v) new).
  { intros a. rewrite actuate_unfold.
    eexists _, (set_status (target a) v), _.
    split.
    { erewrite bind_ok by exact (actuate_spec _ _ _ _ Hl Hdev).
      reflexivity. }
    simpl. split; [reflexivity |].
    split; [by repeat split |].
    split; [reflexivity |].
    apply Forall_app. split.
    - eapply Forall_impl; [apply notices_Forall |].
      intros e (?&?&_). by left.
    - destruct (mps v) as [m|] eqn:Hm; [| constructor].
      eapply Forall_impl; [apply notices_Forall |].
      intros e (Hsrc&?&_). right. by rewrite Hm, Hsrc. }
  destruct c.
  - apply (Hact Insert).
  - apply (Hact Remove).
Qed.

Lemma run_calls_spec cs w l v :
  heap w !! l = Some (ValveO v) → is_device w l = true →
  ∃ w' v' new,
    run_calls l cs w = Ok (tt, w')
    ∧ heap w' = <[l := ValveO v']> (heap w)
    ∧ same_static v v'
    ∧ log w' = log w ++ new
    ∧ Forall (from_device l v) new.
Proof.
  revert w v. induction cs as [|c cs IH]; intros w v Hl Hdev.
  - exists w, v, []. split; [done |].
    split; [by rewrite insert_id |]. split; [apply same_static_refl |].
    split; [by rewrite app_nil_r | constructor].
  - destruct (run_call_spec c w l v Hl Hdev)
      as (w1 & v1 & n1 & Hrun1 & Hh1 & Hs1 & Hlog1 & Hn1).
    assert (Hl1 : heap w1 !! l = Some (ValveO v1))
      by (rewrite Hh1; apply lookup_insert_eq).
    assert (Hdev1 : is_device w1 l = true).
    { apply (is_device_update w w1 l v v1 Hl Hdev Hh1).
      by destruct Hs1 as (_&_&_&_&?&_). }
    destruct (IH w1 v1 Hl1 Hdev1)
      as (w2 & v2 & n2 & Hrun2 & Hh2 & Hs2 & Hlog2 & Hn2).
    exists w2, v2, (n1 ++ n2). split.
    { simpl. erewrite bind_ok by exact Hrun1. exact Hrun2. }
    split; [by rewrite Hh2, Hh1, insert_insert_eq |].
    split; [eapply same_static_trans; eauto |].
    split; [by rewrite Hlog2, Hlog1, app_assoc |].
    apply Forall_app. split; [done |].
    eapply Forall_impl; [exact Hn2 |].
    unfold from_device. intros e He.
    destruct Hs1 as (_&_&_&_&Hm&_). by rewrite <- Hm.
Qed.

(** C7: whatever sequence of [insert] and [remove] calls a device
    receives, its position, its beamline identifier and the value
    of its [transmission] property are afterwards what they were before. *)
Theorem calls_keep_static_attributes cs w l v :
  heap w !! l = Some (ValveO v) → is_device w l = true →
  ∃ w' v' t,
    run_calls l cs w = Ok (tt, w')
    ∧ heap w' !! l = Some (ValveO v')
    ∧ z v' = z v ∧ beamline v' = beamline v
    ∧ Valve_transmission l w = Ok (t, w)
    ∧ Valve_transmission l w' = Ok (t, w').
Proof.
  intros Hl Hdev.
  destruct (run_calls_spec cs w l v Hl Hdev)
    as (w' & v' & new & Hrun & Hh & (Hc & _ & Hz & Hb & _) & _).
  assert (Hl' : heap w' !! l = Some (ValveO v'))
    by (rewrite Hh; apply lookup_insert_eq).
  exists w', v', (_transmission (cls v)).
  repeat (split; [done |]). unfold Valve_transmission. split.
  - by erewrite bind_ok by (by apply get_valve_at).
  - erewrite bind_ok by (by apply get_valve_at). by rewrite <- Hc.
Qed.

(** C9: the [inserted] and [removed] properties of a device are never both
    true, both are false when the status is [Status.unknown], and a device
    leaves either initialiser with status [Status.removed]. *)
Theorem inserted_removed_exclusive :
  (∀ w l v, heap w !! l = Some (ValveO v) →
     ∃ i r,
       Valve_inserted l w = Ok (i, w) ∧ Valve_removed l w = Ok (r, w)
       ∧ i && r = false
       ∧ (status v = Status.unknown → i = false ∧ r = false))
  ∧ (∀ c name pos bl w, ∃ l w' v,
       Valve_init c name pos bl w = Ok (l, w')
       ∧ heap w' !! l = Some (ValveO v) ∧ status v = Status.removed)
  ∧ (∀ name pos bl branch w, ∃ l w' v,
       Crystal_init name pos bl branch w = Ok (l, w')
       ∧ heap w' !! l = Some (ValveO v) ∧ status v = Status.removed).
Proof.
  split; [| split].
  - intros w l v Hl.
    exists (Z.eqb (status v) Status.inserted),
           (Z.eqb (status v) Status.removed).
    unfold Valve_inserted, Valve_removed.
    split; [by erewrite bind_ok by (by apply get_valve_at) |].
    split; [by erewrite bind_ok by (by apply get_valve_at) |].
    split.
    + destruct (Z.eqb_spec (status v) Status.inserted) as [->|]; done.
    + by intros ->.
  - intros c name pos bl w.
    destruct (Valve_init_spec c name pos bl w)
      as (l & m & w' & Hinit & _ & _ & _ & Hh & _).
    eexists l, w', _. split; [done |].
    split; [rewrite Hh; apply lookup_insert_eq | done].
  - intros name pos bl branch w.
    destruct (Crystal_init_spec name pos bl branch w)
      as (l & m & w' & Hinit & _ & _ & _ & Hh & _).
    eexists l, w', _. split; [done |].
    split; [rewrite Hh; apply lookup_insert_eq | done].
Qed.

(** ** The protection device *)

(** C1: the protection device of a device [d] reports [faulted] true
    exactly when [d] is inserted and not veto capable, and false for
    every other combination of status and rating. *)
Theorem faulted_iff_inserted_unrated w lm m v :
  heap w !! lm = Some (MPSO m) → heap w !! device m = Some (ValveO v) →
  ∃ f rated,
    MPS_faulted lm w = Ok (f, w)
    ∧ MPS_veto_capable lm w = Ok (rated, w)
    ∧ rated = _veto (cls v)
    ∧ (f = true ↔ status v = Status.inserted ∧ rated = false)
    ∧ (f = false ↔ status v ≠ Status.inserted ∨ rated = true).
Proof.
  intros Hm Hv.
  assert (Hveto : MPS_veto_capable lm w = Ok (_veto (cls v), w)).
  { unfold MPS_veto_capable.
    erewrite bind_ok by (by apply get_mps_at).
    by erewrite bind_ok by (by apply get_valve_at). }
  assert (Hins : Valve_inserted (device m) w
                 = Ok (Z.eqb (status v) Status.inserted, w)).
  { unfold Valve_inserted. by erewrite bind_ok by (by apply get_valve_at). }
  exists (Z.eqb (status v) Status.inserted && negb (_veto (cls v))),
         (_veto (cls v)).
  split.
  { unfold MPS_faulted.
    erewrite bind_ok by (by apply get_mps_at).
    erewrite bind_ok by exact Hins.
    destruct (Z.eqb (status v) Status.inserted); [| done].
    by erewrite bind_ok by exact Hveto. }
  split; [done |]. split; [done |].
  destruct (Z.eqb_spec (status v) Status.inserted) as [Hs|Hs];
    destruct (_veto (cls v)); simpl; split; intuition congruence.
Qed.

(** ** The branching device *)

(** C2: a branching device with primary branch [p] (its own beamline) and
    secondary branch [s] has destination exactly [s] when inserted,
    exactly [p] when removed, and both [p] and [s] in any other state. *)
Theorem destination_by_state w l v p s :
  heap w !! l = Some (ValveO v) →
  beamline v = p → branches v = Some [p; s] →
  (status v = Status.inserted → Crystal_destination l w = Ok ([s], w))
  ∧ (status v = Status.removed → Crystal_destination l w = Ok ([p], w))
  ∧ (status v ≠ Status.inserted → status v ≠ Status.removed →
     Crystal_destination l w = Ok ([p; s], w)).
Proof.
  intros Hl Hp Hb.
  assert (Hins : Valve_inserted l w
                 = Ok (Z.eqb (status v) Status.inserted, w)).
  { unfold Valve_inserted. by erewrite bind_ok by (by apply get_valve_at). }
  assert (Hrem : Valve_removed l w
                 = Ok (Z.eqb (status v) Status.removed, w)).
  { unfold Valve_removed. by erewrite bind_ok by (by apply get_valve_at). }
  assert (Hbr : get_branches l w = Ok ([p; s], w)).
  { unfold get_branches. erewrite bind_ok by (by apply get_valve_at).
    by rewrite Hb. }
  unfold Crystal_destination. rewrite (bind_ok _ _ _ _ _ Hins).
  split; [| split].
  - intros ->. simpl. by rewrite (bind_ok _ _ _ _ _ Hbr).
  - intros Hs. rewrite Hs. simpl. rewrite (bind_ok _ _ _ _ _ Hrem).
    rewrite Hs. simpl. erewrite bind_ok by (by apply get_valve_at).
    by rewrite Hp.
  - intros Hi Hr.
    apply Z.eqb_neq in Hi, Hr. rewrite Hi.
    rewrite (bind_ok _ _ _ _ _ Hrem). by rewrite Hr.
Qed.


(** ** The beam path *)

Lemma read_devices_world ls w ds w' :
  read_devices ls w = Ok (ds, w') → w' = w.
Proof.
  revert ds. induction ls as [|l ls IH]; intros ds; simpl.
  - by intros [= _ <-].
  - unfold mbind, Py_bind, get_valve.
    destruct (heap w !! l) as [[v|?]|]; try discriminate.
    destruct (read_devices ls w) as [[vs w1]|] eqn:Hr; [| discriminate].
    intros [= _ <-]. eauto.
Qed.


(** Reading succeeds when every reference is to a live device. *)
Lemma read_devices_total ls w :
  Forall (λ l, ∃ v, heap w !! l = Some (ValveO v)) ls →
  ∃ ds, read_devices ls w = Ok (ds, w).
Proof.
  induction 1 as [|l ls [v Hv] _ [ds IH]]; [by exists [] |].
  exists (v :: ds). simpl.
  erewrite bind_ok by (by apply get_valve_at).
  by erewrite bind_ok by exact IH.
Qed.

(** A removed device drops out of the product exactly as a factor 1. *)
Lemma product_skips_removed q ds :
  foldr Qcmult (Q2Qc 1)
    ((λ d, if Z.eqb (status d) Status.inserted
           then _transmission (cls d) else Q2Qc 0)
     <$> filter (λ d, (z d < q)%Qc ∧ status d ≠ Status.removed) ds)
  = foldr Qcmult (Q2Qc 1) (factor <$> filter (λ d, (z d < q)%Qc) ds).
Proof.
  induction ds as [|d ds IH]; [done |].
  rewrite !filter_cons.
  destruct (decide (z d < q)%Qc) as [Hup|Hup].
  - destruct (decide (status d = Status.removed)) as [Hr|Hr].
    + rewrite decide_False by (by intros [_ ?]).
      rewrite fmap_cons. cbn [foldr]. rewrite <- IH.
      unfold factor. rewrite Hr. apply eq_sym, Qcmult_1_l.
    + rewrite decide_True by done.
      rewrite !fmap_cons. cbn [foldr]. rewrite <- IH.
      unfold factor. apply Z.eqb_neq in Hr. by rewrite Hr.
  - rewrite decide_False by (by intros [? _]). done.
Qed.

(** C3: [transmission_at q] is the product, over the devices of the path
    strictly upstream of [q], of 1 for a removed device, the device's
    transmission for an inserted one and 0 for one in any other state; the
    query returns whenever the path's devices are live. *)
Theorem transmission_at_is_product p q w :
  (∀ ds, read_devices (devices p) w = Ok (ds, w) →
     transmission_at p q w
     = Ok (foldr Qcmult (Q2Qc 1)
             (factor <$> filter (λ d, (z d < q)%Qc) ds), w))
  ∧ (Forall (λ l, ∃ v, heap w !! l = Some (ValveO v)) (devices p) →
     ∃ t, transmission_at p q w = Ok (t, w)).
Proof.
  assert (Hprod : ∀ ds, read_devices (devices p) w = Ok (ds, w) →
     transmission_at p q w
     = Ok (foldr Qcmult (Q2Qc 1)
             (factor <$> filter (λ d, (z d < q)%Qc) ds), w)).
  { intros ds Hds. unfold transmission_at.
    erewrite bind_ok by exact Hds.
    unfold mret, Py_ret. by rewrite product_skips_removed. }
  split; [exact Hprod |].
  intros Hlive. destruct (read_devices_total _ _ Hlive) as [ds Hds].
  eexists. by apply Hprod.
Qed.








(** * The theorems at the fixtures

    Each statement above that has premises, applied to a store built by
    the fixtures. *)

Lemma faulted_iff_inserted_unrated_witness :
  MPS_faulted 2%positive inserted_world = Ok (true, inserted_world)
  ∧ MPS_faulted 2%positive device_world = Ok (false, device_world).
Proof.
  split.
  - destruct (faulted_iff_inserted_unrated inserted_world 2%positive
                (mkMPS "MPS" 1%positive false ∅)
                (set_status Status.inserted device_valve))
      as (f & r & Hf & _ & Hr & Hiff & _);
      [vm_compute; reflexivity | vm_compute; reflexivity |].
    rewrite Hf. f_equal. f_equal. apply Hiff. by rewrite Hr.
  - destruct (faulted_iff_inserted_unrated device_world 2%positive
                (mkMPS "MPS" 1%positive false ∅) device_valve)
      as (f & r & Hf & _ & Hr & _ & Hiff);
      [vm_compute; reflexivity | vm_compute; reflexivity |].
    rewrite Hf. f_equal. f_equal. apply Hiff. by left.
Defined.

Lemma destination_by_state_witness :
  Crystal_destination 1%positive crystal_world = Ok (["TST"], crystal_world)
  ∧ Crystal_destination 1%positive (exec (Valve_insert 1%positive) crystal_world)
    = Ok (["SIM"], exec (Valve_insert 1%positive) crystal_world).
Proof.
  split.
  - apply (destination_by_state crystal_world 1%positive crystal_valve
             "TST" "SIM"); reflexivity.
  - apply (destination_by_state _ 1%positive
             (set_status Status.inserted crystal_valve) "TST" "SIM");
      reflexivity.
Defined.

Lemma transmission_at_is_product_witness :
  transmission_at (mkBeamPath "TST" [1%positive]) (qz 50) inserted_world
  = Ok (Q2Qc 0, inserted_world).
Proof.
  rewrite (proj1 (transmission_at_is_product (mkBeamPath "TST" [1%positive])
                    (qz 50) inserted_world)
             [set_status Status.inserted device_valve]);
    [| vm_compute; reflexivity].
  vm_compute. reflexivity.
Defined.


Lemma actuation_idempotent_witness :
  heap device_world !! 1%positive = Some (ValveO device_valve)
  ∧ is_device device_world 1%positive = true
  ∧ status device_valve = target Remove
  ∧ ∃ ack w',
      actuate Remove 1%positive device_world = Ok (ack, w')
      ∧ done ack = true ∧ success ack = true
      ∧ heap w' = heap device_world
      ∧ heap w' !! 1%positive = Some (ValveO device_valve).
Proof.
  split; [vm_compute; reflexivity |].
  split; [vm_compute; reflexivity |].
  split; [reflexivity |].
  apply (actuation_idempotent Remove device_world 1%positive device_valve);
    vm_compute; reflexivity.
Defined.

Lemma actuation_mutates_then_notifies_witness :
  heap watched_world !! 1%positive = Some (ValveO watched_valve)
  ∧ status watched_valve = Status.removed
  ∧ ∃ w',
      actuate Insert 1%positive watched_world = Ok (finished 1%positive, w')
      ∧ Valve_inserted 1%positive w' = Ok (true, w')
      ∧ ev_cb <$> log w' = [7; 8]
      ∧ ev_sub_type <$> log w' = [SUB_DEV_CH; SUB_MPS_CH]
      ∧ Forall (λ e, ∃ seen, ev_seen e !! 1%positive = Some (ValveO seen)
                             ∧ status seen = Status.inserted) (log w').
Proof.
  split; [vm_compute; reflexivity |]. split; [reflexivity |].
  destruct (actuation_mutates_then_notifies Insert watched_world 1%positive
              watched_valve)
    as (w' & v' & de & me & Hrun & _ & _ & _ & _ & Hins & _ & Hlog & _ & _
        & _ & _ & Hseen);
    [vm_compute; reflexivity | vm_compute; reflexivity |].
  exists w'. split; [exact Hrun |]. split; [exact Hins |].
  assert (Hw' : w' = exec (actuate Insert 1%positive) watched_world)
    by (unfold exec; by rewrite Hrun).
  split; [rewrite Hw'; vm_compute; reflexivity |].
  split; [rewrite Hw'; vm_compute; reflexivity |].
  rewrite Hlog. exact Hseen.
Defined.

Lemma actuation_completes_witness :
  ∃ ack w',
    actuate Insert 1%positive device_world = Ok (ack, w')
    ∧ done ack = true ∧ success ack = true
    ∧ Valve_inserted 1%positive w' = Ok (true, w').
Proof.
  destruct (actuation_completes Insert device_world 1%positive device_valve)
    as (ack & w' & Hrun & _ & Hd & Hs & _ & Hi & _);
    [vm_compute; reflexivity | vm_compute; reflexivity |].
  exists ack, w'. repeat (split; [assumption |]). exact Hi.
Defined.

Lemma calls_keep_static_attributes_witness :
  ∃ w' v',
    run_calls 1%positive [CInsert; CRemove; CRemove; CInsert]
      device_world = Ok (tt, w')
    ∧ heap w' !! 1%positive = Some (ValveO v')
    ∧ z v' = qz 40 ∧ beamline v' = "TST"
    ∧ Valve_transmission 1%positive w' = Ok (Q2Qc 0, w').
Proof.
  destruct (calls_keep_static_attributes
              [CInsert; CRemove; CRemove; CInsert]
              device_world 1%positive device_valve)
    as (w' & v' & t & Hrun & Hl & Hz & Hb & Ht & Ht');
    [vm_compute; reflexivity | vm_compute; reflexivity |].
  exists w', v'. repeat (split; [assumption |]).
  assert (Ht0 : Valve_transmission 1%positive device_world
                = Ok (Q2Qc 0, device_world)) by (vm_compute; reflexivity).
  rewrite Ht0 in Ht. injection Ht as <-. exact Ht'.
Defined.

Lemma inserted_removed_exclusive_witness :
  heap device_world !! 1%positive = Some (ValveO device_valve)
  ∧ ∃ i r,
      Valve_inserted 1%positive device_world = Ok (i, device_world)
      ∧ Valve_removed 1%positive device_world = Ok (r, device_world)
      ∧ i && r = false.
Proof.
  split; [vm_compute; reflexivity |].
  destruct (proj1 inserted_removed_exclusive device_world 1%positive
              device_valve)
    as (i & r & Hi & Hr & Hex & _); [vm_compute; reflexivity |].
  exists i, r. repeat (split; [assumption |]). exact Hex.
Defined.

(** ** The fixtures, run *)

(** A [Crystal] keeps the branches its initialiser gave it, whatever calls
    it receives. *)
Lemma crystal_keeps_branches name pos p s cs w0 :
  ∃ l w1 w2 v,
    Crystal_init name pos p s w0 = Ok (l, w1)
    ∧ run_calls l cs w1 = Ok (tt, w2)
    ∧ heap w2 !! l = Some (ValveO v)
    ∧ beamline v = p ∧ branches v = Some [p; s].
Proof.
  destruct (Crystal_init_spec name pos p s w0)
    as (l & m & w1 & Hinit & _ & _ & _ & Hh1 & _).
  set (v1 := mkValve ClsCrystal name pos p Status.removed None
               (Some [p; s]) ∅) in Hh1.
  assert (Hl1 : heap w1 !! l = Some (ValveO v1))
    by (rewrite Hh1; apply lookup_insert_eq).
  assert (Hdev1 : is_device w1 l = true)
    by (unfold is_device; by rewrite Hl1).
  destruct (run_calls_spec cs w1 l v1 Hl1 Hdev1)
    as (w2 & v2 & new & Hrun & Hh2 & (_ & _ & _ & Hb & _ & Hbr) & _).
  exists l, w1, w2, v2. repeat (split; [done |]).
  split; [by rewrite Hh2, lookup_insert_eq | done].
Qed.

(** Fixture [path]: the seven devices and the identities they get. *)
Example path_fixture_builds :
  path_fixture empty_world = Ok (path_locs, path_world).
Proof. vm_compute; reflexivity. Qed.

(** With every device removed the whole beam reaches position 20. *)
Example path_all_removed :
  transmission_at (mkBeamPath "TST" path_locs) (qz 20) path_world
  = Ok (Q2Qc 1, path_world).
Proof. vm_compute. reflexivity. Qed.

(** Inserting the plain valve at position 15 stops the beam and trips its
    protection device; inserting the stopper at position 9 stops the beam
    without a fault. *)
Example path_valve_inserted :
  (Valve_insert 7%positive;;
   t ← transmission_at (mkBeamPath "TST" path_locs) (qz 20);
   f ← mps_faulted 7%positive;
   mret (t, f)) path_world
  = Ok ((Q2Qc 0, true), exec (Valve_insert 7%positive) path_world)
  ∧ (Valve_insert 5%positive;;
     t ← transmission_at (mkBeamPath "TST" path_locs) (qz 20);
     f ← mps_faulted 5%positive;
     mret (t, f)) path_world
    = Ok ((Q2Qc 0, false), exec (Valve_insert 5%positive) path_world).
Proof. split; vm_compute; reflexivity. Qed.

(** The passive monitor at position 24 lets 0.6 of the beam through. *)
Example path_monitor_inserted :
  (Valve_insert 11%positive;;
   t ← transmission_at (mkBeamPath "TST" path_locs) (qz 40);
   mret (this t)) path_world
  = Ok (Qmake 3 5, exec (Valve_insert 11%positive) path_world).
Proof. vm_compute. reflexivity. Qed.

(** * Further properties of the simulated classes *)

(** ** Exact effect of calls *)

Lemma run_call_exact c w l v :
  heap w !! l = Some (ValveO v) → is_device w l = true →
  ∃ w',
    run_call l c w = Ok (tt, w')
    ∧ heap w' = <[l := ValveO (call_effect v c)]> (heap w).
Proof.
  intros Hl Hdev.
  destruct c; simpl.
  - erewrite bind_ok by exact (actuate_spec _ _ _ _ Hl Hdev).
    eexists. split; reflexivity.
  - erewrite bind_ok by exact (actuate_spec _ _ _ _ Hl Hdev).
    eexists. split; reflexivity.
Qed.

Lemma call_effect_static v c : same_static v (call_effect v c).
Proof. destruct c; by repeat split. Qed.

Lemma calls_effect_static v cs : same_static v (calls_effect v cs).
Proof.
  revert v. induction cs as [|c cs IH]; intros v.
  - apply same_static_refl.
  - eapply same_static_trans; [apply call_effect_static | apply IH].
Qed.

Lemma run_calls_exact cs w l v :
  heap w !! l = Some (ValveO v) → is_device w l = true →
  ∃ w',
    run_calls l cs w = Ok (tt, w')
    ∧ heap w' = <[l := ValveO (calls_effect v cs)]> (heap w)
    ∧ is_device w' l = true.
Proof.
  revert w v. induction cs as [|c cs IH]; intros w v Hl Hdev.
  - exists w. split; [done |]. split; [by rewrite insert_id | done].
  - destruct (run_call_exact c w l v Hl Hdev) as (w1 & Hrun1 & Hh1).
    assert (Hl1 : heap w1 !! l = Some (ValveO (call_effect v c)))
      by (rewrite Hh1; apply lookup_insert_eq).
    assert (Hdev1 : is_device w1 l = true).
    { apply (is_device_update w w1 l v _ Hl Hdev Hh1).
      by destruct (call_effect_static v c) as (_&_&_&_&?&_). }
    destruct (IH w1 _ Hl1 Hdev1) as (w2 & Hrun2 & Hh2 & Hdev2).
    exists w2. split.
    { simpl. erewrite bind_ok by exact Hrun1. exact Hrun2. }
    split; [| done].
    by rewrite Hh2, Hh1, insert_insert_eq.
Qed.

Lemma last_actuation_snoc cs c :
  last_actuation (cs ++ [c]) = Some (actuation_of c).
Proof. unfold last_actuation. rewrite fmap_app. apply last_snoc. Qed.

Lemma calls_effect_status v cs :
  status (calls_effect v cs)
  = from_option target (status v) (last_actuation cs).
Proof.
  induction cs as [|c cs IH] using rev_ind; [done |].
  unfold calls_effect in *. rewrite foldl_app. simpl.
  rewrite last_actuation_snoc.
  by destruct c.
Qed.

Lemma inserted_at w l v :
  heap w !! l = Some (ValveO v) →
  Valve_inserted l w = Ok (Z.eqb (status v) Status.inserted, w).
Proof.
  intros Hl. unfold Valve_inserted.
  by erewrite bind_ok by (by apply get_valve_at).
Qed.

Lemma removed_at w l v :
  heap w !! l = Some (ValveO v) →
  Valve_removed l w = Ok (Z.eqb (status v) Status.removed, w).
Proof.
  intros Hl. unfold Valve_removed.
  by erewrite bind_ok by (by apply get_valve_at).
Qed.

Lemma faulted_at w lm m v :
  heap w !! lm = Some (MPSO m) → heap w !! device m = Some (ValveO v) →
  MPS_faulted lm w
  = Ok (Z.eqb (status v) Status.inserted && negb (_veto (cls v)), w).
Proof.
  intros Hm Hv. unfold MPS_faulted.
  erewrite bind_ok by (by apply get_mps_at).
  erewrite bind_ok by (by apply inserted_at).
  destruct (Z.eqb (status v) Status.inserted); [| done].
  unfold MPS_veto_capable.
  erewrite bind_ok.
  2:{ erewrite bind_ok by (by apply get_mps_at).
      by erewrite bind_ok by (by apply get_valve_at). }
  done.
Qed.

(** ** Sequences of calls *)

(** X1: after any sequence of calls on a device, its status is the target
    of the last [insert] or [remove] among them, and is unchanged when
    there was none. *)
Theorem last_actuation_decides_status cs w l v :
  heap w !! l = Some (ValveO v) → is_device w l = true →
  ∃ w' v',
    run_calls l cs w = Ok (tt, w')
    ∧ heap w' !! l = Some (ValveO v')
    ∧ status v' = match last_actuation cs with
                  | Some a => target a
                  | None => status v
                  end.
Proof.
  intros Hl Hdev.
  destruct (run_calls_exact cs w l v Hl Hdev) as (w' & Hrun & Hh & _).
  exists w', (calls_effect v cs). split; [done |].
  split; [rewrite Hh; apply lookup_insert_eq |].
  rewrite calls_effect_status. by destruct (last_actuation cs).
Qed.

(** X2: a device whose status is [Status.inserted] or [Status.removed]
    stays in one of the two under any sequence of calls: afterwards exactly
    one of its [inserted] and [removed] properties is true, so
    [Status.unknown] is out of reach of [insert] and [remove]. *)
Theorem calls_never_reach_unknown cs w l v :
  heap w !! l = Some (ValveO v) → is_device w l = true →
  status v = Status.inserted ∨ status v = Status.removed →
  ∃ w' i,
    run_calls l cs w = Ok (tt, w')
    ∧ Valve_inserted l w' = Ok (i, w')
    ∧ Valve_removed l w' = Ok (negb i, w').
Proof.
  intros Hl Hdev Hs.
  destruct (run_calls_exact cs w l v Hl Hdev) as (w' & Hrun & Hh & _).
  assert (Hl' : heap w' !! l = Some (ValveO (calls_effect v cs)))
    by (rewrite Hh; apply lookup_insert_eq).
  exists w', (Z.eqb (status (calls_effect v cs)) Status.inserted).
  split; [done |]. split; [by apply inserted_at |].
  rewrite (removed_at _ _ _ Hl'). do 2 f_equal.
  rewrite calls_effect_status.
  destruct (last_actuation cs) as [[]|]; simpl; [done | done |].
  by destruct Hs as [-> | ->].
Qed.

(** ** Construction *)

(** X3: a device leaves [Valve.__init__] removed, with a protection device
    of its own that points back at it, is not bypassed and does not report
    a fault; both objects are new to the store. *)
Theorem new_device_is_protected_and_clear c name pos bl w :
  ∃ l m w' v mo,
    Valve_init c name pos bl w = Ok (l, w')
    ∧ heap w !! l = None ∧ heap w !! m = None
    ∧ heap w' !! l = Some (ValveO v) ∧ mps v = Some m
    ∧ heap w' !! m = Some (MPSO mo) ∧ device mo = l ∧ bypassed mo = false
    ∧ Valve_removed l w' = Ok (true, w')
    ∧ mps_faulted l w' = Ok (false, w').
Proof.
  destruct (Valve_init_spec c name pos bl w)
    as (l & m & w' & Hinit & Hl & Hm & Hne & Hh & _).
  assert (Hl' : heap w' !! l
                = Some (ValveO (mkValve c name pos bl Status.removed
                                  (Some m) None ∅)))
    by (rewrite Hh; apply lookup_insert_eq).
  assert (Hm' : heap w' !! m = Some (MPSO (mkMPS "MPS" l false ∅))).
  { rewrite Hh, lookup_insert_ne by done. apply lookup_insert_eq. }
  eexists l, m, w', _, _.
  split; [done |]. split; [done |]. split; [done |].
  split; [exact Hl' |]. split; [done |].
  split; [exact Hm' |]. split; [done |]. split; [done |].
  split; [by rewrite (removed_at _ _ _ Hl') |].
  unfold mps_faulted. erewrite bind_ok by (by apply get_valve_at). simpl.
  by rewrite (faulted_at _ _ _ _ Hm' Hl').
Qed.

(** X4: building a device, of whichever class, leaves the log and every
    object already in the store as they were, and no device that was there
    refers to the new protection device. *)
Theorem construction_touches_nothing_else name pos bl branch w :
  (∀ c, ∃ l m w',
     Valve_init c name pos bl w = Ok (l, w')
     ∧ log w' = log w
     ∧ (∀ l' o, heap w !! l' = Some o → heap w' !! l' = Some o)
     ∧ (∃ v, heap w' !! l = Some (ValveO v) ∧ mps v = Some m)
     ∧ (∀ l' v', is_device w l' = true →
          heap w' !! l' = Some (ValveO v') → l' ≠ l ∧ mps v' ≠ Some m))
  ∧ (∃ l w',
       Crystal_init name pos bl branch w = Ok (l, w')
       ∧ log w' = log w
       ∧ (∀ l' o, heap w !! l' = Some o → heap w' !! l' = Some o)).
Proof.
  split.
  - intros c.
    destruct (Valve_init_spec c name pos bl w)
      as (l & m & w' & Hinit & Hl & Hm & Hne & Hh & Hlog).
    assert (Hold : ∀ l' o, heap w !! l' = Some o → heap w' !! l' = Some o).
    { intros l' o Ho. rewrite Hh.
      rewrite !lookup_insert_ne by congruence. done. }
    exists l, m, w'. split; [done |]. split; [done |].
    split; [exact Hold |].
    split; [eexists; split; [rewrite Hh; apply lookup_insert_eq | done] |].
    intros l' v' Hdev Hl'.
    unfold is_device in Hdev.
    destruct (heap w !! l') as [[v0|?]|] eqn:Hl0; try discriminate.
    rewrite (Hold _ _ Hl0) in Hl'. injection Hl' as <-.
    split; [congruence |].
    intros Hmv. rewrite Hmv in Hdev.
    apply bool_decide_eq_true_1 in Hdev. rewrite Hm in Hdev.
    by destruct Hdev.
  - destruct (Crystal_init_spec name pos bl branch w)
      as (l & m & w' & Hinit & Hl & Hm & Hne & Hh & Hlog).
    exists l, w'. split; [done |]. split; [done |].
    intros l' o Ho. rewrite Hh.
    rewrite !lookup_insert_ne by congruence. done.
Qed.

(** ** Protection state over the life of a device *)

(** X5: on a device built by [Valve.__init__] every sequence of calls
    succeeds, and afterwards its protection device reports a fault exactly
    when the last actuation was an [insert] and the class is not veto
    capable; a [Stopper] never faults, and a device that was never actuated
    or was last removed does not fault. *)
Theorem fault_follows_last_actuation c name pos bl cs w :
  ∃ l w1 w2,
    Valve_init c name pos bl w = Ok (l, w1)
    ∧ run_calls l cs w1 = Ok (tt, w2)
    ∧ mps_faulted l w2
      = Ok (bool_decide (last_actuation cs = Some Insert) && negb (_veto c),
            w2).
Proof.
  destruct (Valve_init_spec c name pos bl w)
    as (l & m & w1 & Hinit & _ & _ & Hne & Hh1 & _).
  set (v1 := mkValve c name pos bl Status.removed (Some m) None ∅) in Hh1.
  assert (Hl1 : heap w1 !! l = Some (ValveO v1))
    by (rewrite Hh1; apply lookup_insert_eq).
  assert (Hm1 : heap w1 !! m = Some (MPSO (mkMPS "MPS" l false ∅))).
  { rewrite Hh1, lookup_insert_ne by done. apply lookup_insert_eq. }
  assert (Hdev1 : is_device w1 l = true).
  { unfold is_device. rewrite Hl1. simpl. rewrite Hm1.
    apply bool_decide_eq_true_2. eauto. }
  destruct (run_calls_exact cs w1 l v1 Hl1 Hdev1) as (w2 & Hrun & Hh2 & _).
  assert (Hl2 : heap w2 !! l = Some (ValveO (calls_effect v1 cs)))
    by (rewrite Hh2; apply lookup_insert_eq).
  assert (Hm2 : heap w2 !! m = Some (MPSO (mkMPS "MPS" l false ∅))).
  { rewrite Hh2, lookup_insert_ne by done. exact Hm1. }
  destruct (calls_effect_static v1 cs) as (Hc & _ & _ & _ & Hmps & _).
  exists l, w1, w2. split; [done |]. split; [done |].
  unfold mps_faulted. erewrite bind_ok by (by apply get_valve_at).
  rewrite Hmps. simpl.
  rewrite (faulted_at _ _ _ _ Hm2 Hl2). do 2 f_equal.
  rewrite Hc, calls_effect_status. simpl. f_equal.
  destruct (last_actuation cs) as [[]|]; done.
Qed.

(** X6: [MPS.faulted] does not read [bypassed]: assigning the attribute,
    to either value, leaves the reported fault as it was. *)
Theorem faulted_ignores_bypassed b w lm m v :
  heap w !! lm = Some (MPSO m) → heap w !! device m = Some (ValveO v) →
  ∃ w' m' f,
    set_bypassed b lm w = Ok (tt, w')
    ∧ heap w' !! lm = Some (MPSO m') ∧ bypassed m' = b
    ∧ MPS_faulted lm w = Ok (f, w)
    ∧ MPS_faulted lm w' = Ok (f, w').
Proof.
  intros Hm Hv.
  assert (Hne : lm ≠ device m) by (intros Heq; rewrite Heq in Hm; congruence).
  eexists _, _, _. split.
  { unfold set_bypassed. erewrite bind_ok by exact (get_mps_at _ _ _ Hm).
    reflexivity. }
  simpl. split; [apply lookup_insert_eq |]. split; [done |].
  split; [exact (faulted_at _ _ _ _ Hm Hv) |].
  apply (faulted_at (mkWorld _ _) lm
           (mkMPS (mps_prefix m) (device m) b (mps_subs m)) v).
  - apply lookup_insert_eq.
  - simpl. by rewrite lookup_insert_ne.
Qed.

(** ** What an actuation leaves alone *)

(** X7: [insert] and [remove] on one device write that device only: every
    other object of the store is unchanged, so another device's [inserted]
    property and the fault reported by another device's protection device
    are what they were. *)
Theorem actuation_leaves_others (a : Actuation) w l v :
  heap w !! l = Some (ValveO v) → is_device w l = true →
  ∃ w',
    actuate a l w = Ok (finished l, w')
    ∧ (∀ l', l' ≠ l → heap w' !! l' = heap w !! l')
    ∧ (∀ l' i, l' ≠ l → Valve_inserted l' w = Ok (i, w) →
         Valve_inserted l' w' = Ok (i, w'))
    ∧ (∀ lm m f, heap w !! lm = Some (MPSO m) → device m ≠ l →
         MPS_faulted lm w = Ok (f, w) → MPS_faulted lm w' = Ok (f, w')).
Proof.
  intros Hl Hdev. rewrite actuate_unfold.
  rewrite (actuate_spec _ _ _ _ Hl Hdev).
  eexists. split; [reflexivity |]. simpl.
  assert (Hother : ∀ l', l' ≠ l →
            moved (target a) l v (heap w) !! l' = heap w !! l').
  { intros l' Hne. unfold moved. by rewrite lookup_insert_ne. }
  split; [exact Hother |]. split.
  - intros l' i Hne. unfold Valve_inserted, mbind, Py_bind, get_valve.
    simpl. rewrite (Hother l' Hne).
    destruct (heap w !! l') as [[v'|?]|]; try discriminate.
    unfold mret, Py_ret. by intros [= <-].
  - intros lm m f Hm Hne Hf.
    assert (Hlm : lm ≠ l) by (intros ->; congruence).
    assert (Hraise : ∀ o, heap w !! device m = o →
              (∀ v', o ≠ Some (ValveO v')) →
              MPS_faulted lm w = Raise AttributeError).
    { intros o Ho Hnv. unfold MPS_faulted.
      erewrite bind_ok by exact (get_mps_at _ _ _ Hm).
      unfold Valve_inserted, mbind, Py_bind, get_valve. rewrite Ho.
      destruct o as [[v'|?]|]; [by destruct (Hnv v') | done | done]. }
    destruct (heap w !! device m) as [[v'|?]|] eqn:Hd.
    + rewrite (faulted_at _ _ _ _ Hm Hd) in Hf. injection Hf as <-.
      apply (faulted_at (mkWorld _ _) lm m v'); simpl;
        by rewrite Hother.
    + rewrite (Hraise _ eq_refl) in Hf; [discriminate | done].
    + rewrite (Hraise _ eq_refl) in Hf; [discriminate | done].
Qed.

(** ** Every actuation is announced *)

Lemma notices_length h src obj sub_type :
  length (notices h src obj sub_type)
  = from_option (λ o, length (callbacks (subs_of o) sub_type)) 0 (h !! src).
Proof.
  unfold notices. destruct (h !! src); [apply length_map | done].
Qed.

(** One actuation logs as many calls as the device has an audience, and
    leaves the audience as it was. *)
Lemma actuate_audience a w l v :
  heap w !! l = Some (ValveO v) → is_device w l = true →
  ∃ w',
    actuate a l w = Ok (finished l, w')
    ∧ heap w' = moved (target a) l v (heap w)
    ∧ length (log w') = length (log w) + audience w l
    ∧ audience w' l = audience w l.
Proof.
  intros Hl Hdev. rewrite actuate_unfold.
  rewrite (actuate_spec _ _ _ _ Hl Hdev).
  eexists. split; [reflexivity |]. simpl. split; [done |].
  set (h' := moved (target a) l v (heap w)).
  assert (Hl' : h' !! l = Some (ValveO (set_status (target a) v)))
    by apply lookup_insert_eq.
  assert (Hsubs : ∀ m st,
            from_option (λ o, length (callbacks (subs_of o) st)) 0 (h' !! m)
            = from_option (λ o, length (callbacks (subs_of o) st)) 0
                (heap w !! m)).
  { intros m st.
    pose proof (moved_subs (target a) l v (heap w) m Hl) as Hs. fold h' in Hs.
    destruct (h' !! m), (heap w !! m); simpl in *; congruence. }
  unfold audience. simpl. rewrite Hl, Hl'. simpl. split.
  - rewrite !length_app, !notices_length, Hl'. simpl.
    destruct (mps v) as [m|]; [| done].
    by rewrite notices_length, Hsubs.
  - destruct (mps v) as [m|]; [| done]. by rewrite Hsubs.
Qed.

(** X8: subscribers are called on every actuation, whether or not it
    changes the status: a sequence of [n] [insert] and [remove] calls logs
    exactly [n] times the device's audience, repeated requests included. *)
Theorem every_actuation_is_announced (acts : list Actuation) w l v :
  heap w !! l = Some (ValveO v) → is_device w l = true →
  ∃ w',
    run_calls l (request <$> acts) w = Ok (tt, w')
    ∧ length (log w') = length (log w) + length acts * audience w l.
Proof.
  revert w v. induction acts as [|a acts IH]; intros w v Hl Hdev.
  - exists w. split; [done |]. simpl. lia.
  - destruct (actuate_audience a w l v Hl Hdev)
      as (w1 & Hrun1 & Hh1 & Hlen1 & Haud1).
    assert (Hl1 : heap w1 !! l = Some (ValveO (set_status (target a) v)))
      by (rewrite Hh1; apply lookup_insert_eq).
    assert (Hdev1 : is_device w1 l = true)
      by (by apply (is_device_update w w1 l v _ Hl Hdev Hh1)).
    destruct (IH w1 _ Hl1 Hdev1) as (w2 & Hrun2 & Hlen2).
    exists w2. split.
    + rewrite fmap_cons. simpl.
      erewrite bind_ok; [exact Hrun2 |].
      destruct a; simpl; by erewrite bind_ok by exact Hrun1.
    + rewrite Hlen2, Hlen1, Haud1. simpl. lia.
Qed.

(** ** Routing *)

(** X9: [Crystal.destination] reads [branches] only as far as it needs:
    when the device is removed the answer is its own beamline whatever
    [branches] holds; when it is inserted the answer is the second entry of
    [branches], and a list with fewer than two entries raises
    [IndexError]. *)
Theorem destination_reads_second_branch bs w l v :
  heap w !! l = Some (ValveO v) →
  ∃ w' v',
    assign_branches bs l w = Ok (tt, w')
    ∧ heap w' !! l = Some (ValveO v') ∧ status v' = status v
    ∧ (status v = Status.removed →
       Crystal_destination l w' = Ok ([beamline v], w'))
    ∧ (status v = Status.inserted →
       Crystal_destination l w'
       = match bs !! 1 with
         | Some b => Ok ([b], w')
         | None => Raise IndexError
         end)
    ∧ (status v ≠ Status.inserted → status v ≠ Status.removed →
       Crystal_destination l w' = Ok (bs, w')).
Proof.
  intros Hl. eexists _, _. split.
  { unfold assign_branches. by apply update_valve_at. }
  set (w' := mkWorld _ _).
  assert (Hl' : heap w' !! l = Some (ValveO (set_branches (Some bs) v)))
    by apply lookup_insert_eq.
  split; [exact Hl' |]. split; [done |].
  assert (Hbr : get_branches l w' = Ok (bs, w')).
  { unfold get_branches. by erewrite bind_ok by (by apply get_valve_at). }
  unfold Crystal_destination.
  rewrite (bind_ok _ _ _ _ _ (inserted_at _ _ _ Hl')). simpl.
  split; [| split].
  - intros Hs. rewrite Hs. simpl.
    rewrite (bind_ok _ _ _ _ _ (removed_at _ _ _ Hl')). simpl.
    rewrite Hs. simpl. by erewrite bind_ok by (by apply get_valve_at).
  - intros ->. simpl. rewrite (bind_ok _ _ _ _ _ Hbr).
    unfold subscript. by destruct (bs !! 1).
  - intros Hi Hr. apply Z.eqb_neq in Hi, Hr. rewrite Hi.
    rewrite (bind_ok _ _ _ _ _ (removed_at _ _ _ Hl')). simpl.
    by rewrite Hr.
Qed.

(** X10: a [Crystal] built for beamline [p] with branch [s] and driven only
    through its methods always has exactly one destination: [s] when the
    last actuation was an [insert], its own beamline [p] otherwise. *)
Theorem crystal_route_follows_last_actuation name pos p s cs w0 :
  ∃ l w1 w2,
    Crystal_init name pos p s w0 = Ok (l, w1)
    ∧ run_calls l cs w1 = Ok (tt, w2)
    ∧ Crystal_destination l w2
      = Ok (if bool_decide (last_actuation cs = Some Insert)
            then [s] else [p], w2).
Proof.
  destruct (Crystal_init_spec name pos p s w0)
    as (l & m & w1 & Hinit & _ & _ & _ & Hh1 & _).
  set (v1 := mkValve ClsCrystal name pos p Status.removed None
               (Some [p; s]) ∅) in Hh1.
  assert (Hl1 : heap w1 !! l = Some (ValveO v1))
    by (rewrite Hh1; apply lookup_insert_eq).
  assert (Hdev1 : is_device w1 l = true)
    by (unfold is_device; by rewrite Hl1).
  destruct (run_calls_exact cs w1 l v1 Hl1 Hdev1) as (w2 & Hrun & Hh2 & _).
  assert (Hl2 : heap w2 !! l = Some (ValveO (calls_effect v1 cs)))
    by (rewrite Hh2; apply lookup_insert_eq).
  destruct (calls_effect_static v1 cs) as (_ & _ & _ & Hb & _ & Hbr).
  pose proof (calls_effect_status v1 cs) as Hs.
  exists l, w1, w2. split; [done |]. split; [done |].
  unfold Crystal_destination.
  rewrite (bind_ok _ _ _ _ _ (inserted_at _ _ _ Hl2)). rewrite Hs.
  destruct (last_actuation cs) as [[]|] eqn:Hlast; simpl.
  - assert (Hget : get_branches l w2 = Ok ([p; s], w2)).
    { unfold get_branches. erewrite bind_ok by (by apply get_valve_at).
      by rewrite Hbr. }
    by rewrite (bind_ok _ _ _ _ _ Hget).
  - rewrite (bind_ok _ _ _ _ _ (removed_at _ _ _ Hl2)). rewrite Hs.
    simpl. erewrite bind_ok by (by apply get_valve_at). by rewrite Hb.
  - rewrite (bind_ok _ _ _ _ _ (removed_at _ _ _ Hl2)). rewrite Hs.
    simpl. erewrite bind_ok by (by apply get_valve_at). by rewrite Hb.
Qed.

(** ** Round trips *)

Lemma actuations_effect v acts :
  calls_effect v (request <$> acts)
  = set_status (from_option target (status v) (last acts)) v.
Proof.
  induction acts as [|a acts IH] using rev_ind.
  - simpl. by rewrite set_status_same.
  - unfold calls_effect in *. rewrite fmap_app, foldl_app, IH. simpl.
    rewrite last_snoc. by destruct a.
Qed.

(** X11: a run of [insert] and [remove] calls that ends with the request
    for the status the device started in restores the store exactly; in
    particular [insert] then [remove] on a removed device, and [remove]
    then [insert] on an inserted one, undo each other. *)
Theorem actuations_round_trip (acts : list Actuation) (a : Actuation) w l v :
  heap w !! l = Some (ValveO v) → is_device w l = true →
  status v = target a →
  ∃ w',
    run_calls l (request <$> (acts ++ [a])) w = Ok (tt, w')
    ∧ heap w' = heap w.
Proof.
  intros Hl Hdev Hs.
  destruct (run_calls_exact (request <$> (acts ++ [a])) w l v Hl Hdev)
    as (w' & Hrun & Hh & _).
  exists w'. split; [done |].
  rewrite Hh, actuations_effect, last_snoc. simpl.
  rewrite <- Hs, set_status_same. by apply insert_id.
Qed.

(** * The further properties at the fixtures *)

Lemma last_actuation_decides_status_witness :
  ∃ w' v',
    run_calls 1%positive [CRemove; CInsert; CRemove; CInsert]
      device_world = Ok (tt, w')
    ∧ heap w' !! 1%positive = Some (ValveO v')
    ∧ status v' = Status.inserted.
Proof.
  apply (last_actuation_decides_status
           [CRemove; CInsert; CRemove; CInsert]
           device_world 1%positive device_valve);
    vm_compute; reflexivity.
Defined.

Lemma calls_never_reach_unknown_witness :
  ∃ w' i,
    run_calls 1%positive [CInsert; CInsert; CRemove] device_world = Ok (tt, w')
    ∧ Valve_inserted 1%positive w' = Ok (i, w')
    ∧ Valve_removed 1%positive w' = Ok (negb i, w').
Proof.
  apply (calls_never_reach_unknown [CInsert; CInsert; CRemove]
           device_world 1%positive device_valve);
    [vm_compute; reflexivity | vm_compute; reflexivity | by right].
Defined.

Lemma faulted_ignores_bypassed_witness :
  ∃ w' m' f,
    set_bypassed true 2%positive inserted_world = Ok (tt, w')
    ∧ heap w' !! 2%positive = Some (MPSO m') ∧ bypassed m' = true
    ∧ MPS_faulted 2%positive inserted_world = Ok (f, inserted_world)
    ∧ MPS_faulted 2%positive w' = Ok (f, w').
Proof.
  apply (faulted_ignores_bypassed true inserted_world 2%positive
           (mkMPS "MPS" 1%positive false ∅)
           (set_status Status.inserted device_valve));
    vm_compute; reflexivity.
Defined.

Lemma actuation_leaves_others_witness :
  ∃ w',
    actuate Insert 7%positive path_world = Ok (finished 7%positive, w')
    ∧ heap w' !! 5%positive = heap path_world !! 5%positive
    ∧ Valve_inserted 5%positive w' = Ok (false, w').
Proof.
  destruct (actuation_leaves_others Insert path_world 7%positive
              (mkValve ClsValve "three" (qz 15) "TST" Status.removed
                 (Some 8%positive) None ∅))
    as (w' & Hrun & Hheap & Hins & _);
    [vm_compute; reflexivity | vm_compute; reflexivity |].
  exists w'. split; [exact Hrun |].
  split; [apply Hheap; discriminate |].
  apply Hins; [discriminate | vm_compute; reflexivity].
Defined.

Lemma every_actuation_is_announced_witness :
  audience watched_world 1%positive = 2
  ∧ ∃ w',
      run_calls 1%positive (request <$> [Insert; Insert; Remove])
        watched_world = Ok (tt, w')
      ∧ length (log w') = length (log watched_world) + 3 * 2.
Proof.
  split; [vm_compute; reflexivity |].
  destruct (every_actuation_is_announced [Insert; Insert; Remove]
              watched_world 1%positive watched_valve)
    as (w' & Hrun & Hlen);
    [vm_compute; reflexivity | vm_compute; reflexivity |].
  exists w'. split; [exact Hrun |]. exact Hlen.
Defined.

Lemma destination_reads_second_branch_witness :
  ∃ w',
    assign_branches ["TST"] 1%positive
      (exec (Valve_insert 1%positive) crystal_world) = Ok (tt, w')
    ∧ Crystal_destination 1%positive w' = Raise IndexError.
Proof.
  destruct (destination_reads_second_branch ["TST"]
              (exec (Valve_insert 1%positive) crystal_world) 1%positive
              (set_status Status.inserted crystal_valve))
    as (w' & v' & Hrun & _ & _ & _ & Hins & _);
    [vm_compute; reflexivity |].
  exists w'. split; [exact Hrun |]. by apply Hins.
Defined.

Lemma actuations_round_trip_witness :
  ∃ w',
    run_calls 1%positive (request <$> ([Insert] ++ [Remove])) device_world
    = Ok (tt, w')
    ∧ heap w' = heap device_world.
Proof.
  apply (actuations_round_trip [Insert] Remove device_world 1%positive
           device_valve);
    vm_compute; reflexivity.
Defined.
